(** * The query-parameter HTTP server: routing, category filter and limit

    The development embeds the request handler passed to [http.createServer]
    (the file with the [/] and [/api] routes) and proves the properties the
    specification states about it.

    - [Module JS] holds the fragment of the JavaScript runtime the handler
      relies on: strings as sequences of UTF-16 code units, JSON values,
      completions (normal or abrupt), [parseInt], [slice], [filter],
      [Object.fromEntries] and truthiness.
    - [Module Server] holds the handler itself, written in a small state and
      exception monad over the calls made on [console] and on [res].
    - [Module Pages] holds the static pages server and [Module Farm] the
      file-copy script, the two other programs of the repository.
    - The theorems follow, one group per route or pipeline stage. *)

From Stdlib Require Import ZArith NArith Ascii String PrimFloat.
From stdpp Require Import base option list gmap.

Set Warnings "-register-all".

Module JS.

(** ** Strings

    A JavaScript string is a finite sequence of 16-bit code units; [===] on
    two strings compares them unit by unit, which is Leibniz equality on the
    lists.  Literals of the source are written [js "..."]. *)

Abbreviation jsstring := (list N).

Definition js (s : string) : jsstring :=
  (λ c, N_of_ascii c) <$> list_ascii_of_string s.
Arguments js _%_string : simpl never.

(** ** JSON values, as [JSON.parse] returns them

    An object keeps its members in the order of the text; a later member
    overrides an earlier one of the same name (see [own_property]). *)

Inductive json : Type :=
  | JNull
  | JBool (b : bool)
  | JNum (x : float)
  | JStr (s : jsstring)
  | JArr (items : list json)
  | JObj (members : list (jsstring * json)).

(** ** Completions: a call returns normally or throws *)

Inductive exn : Type := TypeError | SyntaxError | SystemError.

Inductive completion (A : Type) : Type :=
  | Normal (a : A)
  | Throw (e : exn).
Arguments Normal {A} a.
Arguments Throw {A} e.

#[global] Instance completion_ret : MRet completion := @Normal.
#[global] Instance completion_bind : MBind completion :=
  λ A B f c, match c with Normal a => f a | Throw e => Throw e end.

(** ** Truthiness of a property read

    [queryParams.k] is [undefined] ([None]) or a string; [ToBoolean] sends
    [undefined] and the empty string to [false], any other string to
    [true]. *)

Definition ToBoolean (v : option jsstring) : bool :=
  match v with
  | None => false
  | Some [] => false
  | Some (_ :: _) => true
  end.

(** ** [Object.fromEntries]

    The entries are defined one after the other as own data properties, so
    the last entry of a name is the one that stays. *)

Definition fromEntries (entries : list (jsstring * jsstring))
  : gmap jsstring jsstring :=
  foldl (λ obj kv, <[kv.1 := kv.2]> obj) ∅ entries.

(** ** [parseInt(string)] with no radix

    The result is a Number: [None] stands for [NaN], [Some z] for the
    integer read.  The runtime rounds [z] to the nearest double; the
    rounding is monotone and leaves every integer below [2^53] unchanged,
    and the only consumer here, [slice], clamps the value against a length
    below [2^32], so the clamp of the rounded value and the clamp of [z]
    agree. *)

Definition StrWhiteSpaceChar (c : N) : bool :=
  ((9 <=? c) && (c <=? 13) || (c =? 32) || (c =? 160) || (c =? 5760)
   || (8192 <=? c) && (c <=? 8202) || (c =? 8232) || (c =? 8233)
   || (c =? 8239) || (c =? 8287) || (c =? 12288) || (c =? 65279))%N.

Fixpoint trimStart (s : jsstring) : jsstring :=
  match s with
  | c :: rest => if StrWhiteSpaceChar c then trimStart rest else s
  | [] => []
  end.

(** The value of a code unit as a digit: [0-9], [a-z], [A-Z]. *)
Definition digit_of (c : N) : option Z :=
  if ((48 <=? c) && (c <=? 57))%N then Some (Z.of_N c - 48)%Z
  else if ((97 <=? c) && (c <=? 122))%N then Some (Z.of_N c - 87)%Z
  else if ((65 <=? c) && (c <=? 90))%N then Some (Z.of_N c - 55)%Z
  else None.

Definition radix_digit (R : Z) (c : N) : option Z :=
  match digit_of c with
  | Some d => if (d <? R)%Z then Some d else None
  | None => None
  end.

(** Reads the longest prefix of radix-[R] digits, [acc] being the value of
    the digits read so far; the rest of the string is ignored. *)
Fixpoint read_digits (R : Z) (acc : Z) (s : jsstring) : Z :=
  match s with
  | c :: rest =>
      match radix_digit R c with
      | Some d => read_digits R (acc * R + d)%Z rest
      | None => acc
      end
  | [] => acc
  end.

(** [None] when the string does not start with a digit (the digit prefix is
    empty). *)
Definition digits_value (R : Z) (s : jsstring) : option Z :=
  match s with
  | c :: _ =>
      match radix_digit R c with
      | Some _ => Some (read_digits R 0 s)
      | None => None
      end
  | [] => None
  end.

Definition parseInt (input : jsstring) : option Z :=
  let S0 := trimStart input in
  let '(sign, S1) :=
    match S0 with
    | 45%N :: rest => ((-1)%Z, rest)
    | 43%N :: rest => (1%Z, rest)
    | _ => (1%Z, S0)
    end in
  let '(R, S2) :=
    match S1 with
    | 48%N :: 120%N :: rest => (16%Z, rest)
    | 48%N :: 88%N :: rest => (16%Z, rest)
    | _ => (10%Z, S1)
    end in
  match digits_value R S2 with
  | Some n => Some (sign * n)%Z
  | None => None
  end.

(** ** [x.slice(0, end)] on a sequence

    [end] is converted with [ToIntegerOrInfinity] ([NaN] becomes [0]); a
    negative [end] counts from the back; the result is the elements from
    index [0] up to the clamped end. *)

Definition ToIntegerOrInfinity (n : option Z) : Z :=
  match n with
  | None => 0%Z
  | Some z => z
  end.

Definition slice_from_0 {A : Type} (l : list A) (e : option Z) : list A :=
  let len := Z.of_nat (length l) in
  let relativeEnd := ToIntegerOrInfinity e in
  let final :=
    if (relativeEnd <? 0)%Z then Z.max (len + relativeEnd) 0
    else Z.min relativeEnd len in
  take (Z.to_nat (Z.max (final - 0) 0)) l.

(** [productData.slice(0, end)]: arrays and strings have a [slice] method;
    reading a property of [null] throws, and on numbers, booleans and parsed
    objects [slice] is not a function. *)
Definition method_slice (v : json) (e : option Z) : completion json :=
  match v with
  | JArr items => Normal (JArr (slice_from_0 items e))
  | JStr s => Normal (JStr (slice_from_0 s e))
  | JNull | JBool _ | JNum _ | JObj _ => Throw TypeError
  end.

(** ** [array.filter(callback)]

    The callback is applied to the elements in order; an exception of the
    callback ends the call.  Only arrays have a [filter] method. *)

Fixpoint filter_items (cb : json → completion bool) (items : list json)
  : completion (list json) :=
  match items with
  | [] => Normal []
  | item :: rest =>
      selected ← cb item;
      kept ← filter_items cb rest;
      Normal (if selected : bool then item :: kept else kept)
  end.

Definition method_filter (v : json) (cb : json → completion bool)
  : completion json :=
  match v with
  | JArr items => kept ← filter_items cb items; Normal (JArr kept)
  | JNull | JBool _ | JNum _ | JStr _ | JObj _ => Throw TypeError
  end.

(** ** Property reads and strict equality *)

(** The own property [k] of a parsed object: the last member of that name. *)
Fixpoint own_property (k : jsstring) (members : list (jsstring * json))
  : option json :=
  match members with
  | [] => None
  | (k', v) :: rest =>
      match own_property k rest with
      | Some v' => Some v'
      | None => if decide (k' = k) then Some v else None
      end
  end.

(** [item.category]: [null] has no properties and the read throws; an object
    yields its own member or [undefined]; numbers, booleans, strings and
    arrays inherit no property of that name, so the read is [undefined]. *)
Definition get_category (item : json) : completion (option json) :=
  match item with
  | JNull => Throw TypeError
  | JObj members => Normal (own_property (js "category") members)
  | JBool _ | JNum _ | JStr _ | JArr _ => Normal None
  end.

(** [a === b] where [a] is a property read of a JSON value and [b] a
    property read of [queryParams] (so [undefined] or a string): both
    [undefined], or both strings with the same code units. *)
Definition strict_equals (a : option json) (b : option jsstring) : bool :=
  match a, b with
  | None, None => true
  | Some (JStr t), Some s => bool_decide (t = s)
  | _, _ => false
  end.

(** [ToString] of a property read of [queryParams]. *)
Definition ToString (v : option jsstring) : jsstring :=
  match v with
  | Some s => s
  | None => js "undefined"
  end.

End JS.

Module Server.
Import JS.

(** ** The outside world of one request

    [data_json] is the outcome of [fs.readFile(join(__dirname, "data.json"),
    "utf-8")], the text of the file or a rejection; [JSON_parse] is the
    runtime's [JSON.parse], which returns a value or throws. *)

Record world : Type := {
  data_json : completion jsstring;
  JSON_parse : jsstring → completion json
}.

(** The request after [new URL(req.url, ...)]: the method, [url.pathname]
    and the entries of [url.searchParams] in the order of the query
    string. *)

Record request : Type := {
  method : jsstring;
  pathname : jsstring;
  searchParams : list (jsstring * jsstring)
}.

(** ** The calls the handler makes

    A body is either a literal text or [JSON.stringify v] of a JSON value,
    kept as that value. *)

Inductive body : Type :=
  | Text (s : jsstring)
  | JSON_stringify (v : json).

Inductive res_call : Type :=
  | WriteHead (status : Z) (headers : list (jsstring * jsstring))
  | End (b : body).

Record io : Type := {
  console : list (jsstring * gmap jsstring jsstring);
  res : list res_call
}.

Definition io_start : io := {| console := []; res := [] |}.

(** ** The monad of the handler: calls accumulate, exceptions propagate

    A computation that throws keeps the calls made before the throw. *)

Definition M (A : Type) : Type := io → completion A * io.

#[global] Instance M_ret : MRet M := λ A a s, (Normal a, s).
#[global] Instance M_bind : MBind M :=
  λ A B f m s,
    match m s with
    | (Normal a, s') => f a s'
    | (Throw e, s') => (Throw e, s')
    end.

Definition lift {A : Type} (c : completion A) : M A := λ s, (c, s).

Definition try_catch {A : Type} (block : M A) (handler : exn → M A) : M A :=
  λ s,
    match block s with
    | (Normal a, s') => (Normal a, s')
    | (Throw e, s') => handler e s'
    end.

Definition console_log (line : jsstring) (obj : gmap jsstring jsstring)
  : M unit :=
  λ s, (Normal (), {| console := console s ++ [(line, obj)]; res := res s |}).

Definition res_writeHead (status : Z) (headers : list (jsstring * jsstring))
  : M unit :=
  λ s, (Normal (),
        {| console := console s; res := res s ++ [WriteHead status headers] |}).

Definition res_end (b : body) : M unit :=
  λ s, (Normal (), {| console := console s; res := res s ++ [End b] |}).

(** ** The handler *)

Definition home_page : jsstring :=
  js "<!DOCTYPE html>
<html>
  <head>
    <title>Home Page</title>
  </head>
  <body>
    <h1>Welcome to the Home Page</h1>
    <p>This is the home page content.</p>
  </body>
</html>".

Definition text_html : list (jsstring * jsstring) :=
  [(js "Content-Type", js "text/html")].

Definition application_json : list (jsstring * jsstring) :=
  [(js "Content-Type", js "application/json")].

Definition error_body : json :=
  JObj [(js "error", JStr (js "Data file not found"))].

(** [if (queryParams.category) productData = productData.filter(item =>
    item.category === queryParams.category)] *)
Definition category_step (queryParams : gmap jsstring jsstring)
    (productData : json) : completion json :=
  if ToBoolean (queryParams !! js "category") then
    method_filter productData
      (λ item,
         c ← get_category item;
         Normal (strict_equals c (queryParams !! js "category")))
  else Normal productData.

(** [if (queryParams.limit) productData = productData.slice(0,
    parseInt(queryParams.limit))] *)
Definition limit_step (queryParams : gmap jsstring jsstring)
    (productData : json) : completion json :=
  if ToBoolean (queryParams !! js "limit") then
    method_slice productData
      (parseInt (ToString (queryParams !! js "limit")))
  else Normal productData.

(** The body of the [try] block of the [/api] route. *)
Definition api_try (w : world) (queryParams : gmap jsstring jsstring)
  : M unit :=
  data ← lift (data_json w);
  productData ← lift (JSON_parse w data);
  productData ← lift (category_step queryParams productData);
  productData ← lift (limit_step queryParams productData);
  res_writeHead 200 application_json;;
  res_end (JSON_stringify productData).

Definition api_catch (error : exn) : M unit :=
  res_writeHead 404 application_json;;
  res_end (JSON_stringify error_body).

(** [Object.fromEntries(url.searchParams)] *)
Definition queryParams (req : request) : gmap jsstring jsstring :=
  fromEntries (searchParams req).

Definition handler (w : world) (req : request) : M unit :=
  let pathName := pathname req in
  console_log (method req ++ js " " ++ pathName) (queryParams req);;
  if decide (pathName = js "/") then
    res_writeHead 200 text_html;;
    res_end (Text home_page)
  else if decide (pathName = js "/api") then
    try_catch (api_try w (queryParams req)) api_catch
  else
    res_writeHead 404 text_html;;
    res_end (Text (js "<h1>404 - Page Not Found</h1>")).

(** What the client receives: the calls made on [res], in order, when the
    handler starts from a fresh response object. *)
Definition response (w : world) (req : request) : list res_call :=
  res (handler w req io_start).2.

(** Whether the promise returned by the [async] handler is fulfilled
    ([Normal]) or rejected ([Throw]). *)
Definition settled (w : world) (req : request) : completion unit :=
  (handler w req io_start).1.

End Server.

(** * The static pages server

    The second server of the repository loads four pages when the module
    starts and routes on the raw [req.url]. *)

Module Pages.
Import JS.

(** The file system as the module sees it: [readFileSync(path, "utf-8")]
    returns the decoded text or throws, [readFileSync(path)] returns the
    bytes of a Buffer or throws. *)
Record disk : Type := {
  readFileSync_utf8 : jsstring → completion jsstring;
  readFileSync_buffer : jsstring → completion (list N)
}.

(** The four module-level constants. *)
Record pages : Type := {
  homePage : jsstring;
  contactPage : jsstring;
  aboutPage : list N;
  notfoundPage : jsstring
}.

(** The top of the module, run once before [createServer]: an exception of
    any read ends the module. *)
Definition load (d : disk) : completion pages :=
  home ← readFileSync_utf8 d (js "./home.html");
  contact ← readFileSync_utf8 d (js "./contact.html");
  about ← readFileSync_buffer d (js "./about.html");
  notfound ← readFileSync_utf8 d (js "./notfound.html");
  Normal {| homePage := home; contactPage := contact;
            aboutPage := about; notfoundPage := notfound |}.

Inductive chunk : Type :=
  | Str (s : jsstring)
  | Buffer (bytes : list N).

Inductive res_call : Type :=
  | WriteHead (status : Z)
  | End (c : chunk).

(** The calls the request listener makes on [res], in order. *)
Definition listener (p : pages) (url : jsstring) : list res_call :=
  if decide (url = js "/about") then [End (Buffer (aboutPage p))]
  else if decide (url = js "/contact") then [End (Str (contactPage p))]
  else if decide (url = js "/") then [End (Str (homePage p))]
  else [WriteHead 404; End (Str (notfoundPage p))].

(** The status line that goes out: the one of [writeHead] when it was
    called, the default [statusCode] of a response, 200, otherwise. *)
Definition status_sent (calls : list res_call) : Z :=
  match calls with
  | WriteHead status :: _ => status
  | _ => 200
  end.

End Pages.

(** * The file-copy script

    The script of the [Node Farm] folder reads a text file, prints it and
    writes it back, prefixed, to another file. *)

Module Farm.
Import JS.

(** The machine the script runs on: the readable text files by path, what
    was printed, and the paths [writeFileSync] may write. *)
Record machine : Type := {
  files : gmap jsstring jsstring;
  console : list jsstring;
  writable : jsstring → bool
}.

Definition Script (A : Type) : Type := machine → completion A * machine.

#[global] Instance Script_ret : MRet Script := λ A a m, (Normal a, m).
#[global] Instance Script_bind : MBind Script :=
  λ A B f c m,
    match c m with
    | (Normal a, m') => f a m'
    | (Throw e, m') => (Throw e, m')
    end.

Definition readFileSync (path : jsstring) : Script jsstring :=
  λ m, match files m !! path with
       | Some content => (Normal content, m)
       | None => (Throw SystemError, m)
       end.

Definition writeFileSync (path data : jsstring) : Script unit :=
  λ m, if writable m path
       then (Normal (),
             {| files := <[path := data]> (files m);
                console := console m;
                writable := writable m |})
       else (Throw SystemError, m).

Definition console_log (line : jsstring) : Script unit :=
  λ m, (Normal (),
        {| files := files m;
           console := console m ++ [line];
           writable := writable m |}).

Definition input_path : jsstring := js "./txt/read-this.txt".
Definition output_path : jsstring := js "./txt/output.txt".

(** The fixed part of the template literal; 34 is the double quote. *)
Definition preamble : jsstring :=
  js "This is the text gotten from the "
  ++ 34%N :: js "read-this.txt" ++ 34%N
  :: js " file in the next sentence. ".

Definition script : Script unit :=
  input ← readFileSync input_path;
  console_log input;;
  let output := preamble ++ input in
  writeFileSync output_path output.

End Farm.

Import JS Server.

(** * Specification-side notions *)

(** The category field of a record: defined when the item is an object whose
    [category] member is a string.  Records of the collection are compared
    to the query value through this field. *)
Definition record_category (item : json) : option jsstring :=
  match item with
  | JObj members =>
      match own_property (js "category") members with
      | Some (JStr c) => Some c
      | _ => None
      end
  | _ => None
  end.

(** The records of [l] whose category field equals [X], in the order of
    [l]. *)
Definition matching (X : jsstring) (l : list json) : list json :=
  filter (λ item, record_category item = Some X) l.

(** A collection none of whose items is the JSON value [null]; every
    sequence of records is one. *)
Definition no_null (l : list json) : Prop :=
  Forall (λ item, item ≠ JNull) l.

(** The two responses of the data route. *)
Definition ok_response (v : json) : list res_call :=
  [WriteHead 200 application_json; End (JSON_stringify v)].

Definition data_unavailable : list res_call :=
  [WriteHead 404 application_json; End (JSON_stringify error_body)].

(** The value computed by the [try] block before it writes the response. *)
Definition api_result (w : world) (q : gmap jsstring jsstring)
  : completion json :=
  data ← data_json w;
  productData ← JSON_parse w data;
  productData ← category_step q productData;
  limit_step q productData.

(** A decimal digit, [0] to [9], as a code unit. *)
Definition decimal_digit (c : N) : Prop := (48 ≤ c ≤ 57)%N.

(** What may follow the numeral [ds] of a limit for [parseInt] to read
    exactly [ds]: nothing, or a code unit that is not a decimal digit and,
    after the lone numeral [0], is neither [x] nor [X] (which would start a
    hexadecimal literal). *)
Definition ends_numeral (ds rest : jsstring) : Prop :=
  match rest with
  | [] => True
  | c :: _ =>
      ¬ decimal_digit c ∧ (ds = [48%N] → c ≠ 120%N ∧ c ≠ 88%N)
  end.

(** ** Sample inputs

    The collection and query of the specification's example, and a few
    requests on which the theorems are exercised. *)

Definition record_of (c : string) : json :=
  JObj [(js "category", JStr (js c))].

Definition sample_collection : list json :=
  [record_of "a"; record_of "b"; record_of "a"].

(** The text of [data.json] for [sample_collection]; 34 is the code unit of
    the double quote. *)
Definition quoted (s : jsstring) : jsstring := 34%N :: s ++ [34%N].

Definition sample_text : jsstring :=
  let member c := js "{" ++ quoted (js "category") ++ js ":" ++ quoted c
                  ++ js "}" in
  js "[" ++ member (js "a") ++ js "," ++ member (js "b") ++ js ","
  ++ member (js "a") ++ js "]".

(** A world whose file holds [sample_text], which parses to
    [sample_collection]; any other text is rejected by the parser. *)
Definition sample_world : world :=
  {| data_json := Normal sample_text;
     JSON_parse := λ t, if decide (t = sample_text)
                        then Normal (JArr sample_collection)
                        else Throw SyntaxError |}.

(** A world whose file cannot be read, and one whose file is not JSON. *)
Definition missing_file_world : world :=
  {| data_json := Throw SystemError;
     JSON_parse := λ _, Throw SyntaxError |}.

Definition corrupt_file_world : world :=
  {| data_json := Normal (js "{oops");
     JSON_parse := λ _, Throw SyntaxError |}.

Definition get (path : string) (query : list (jsstring * jsstring))
  : request :=
  {| method := js "GET"; pathname := js path; searchParams := query |}.
Arguments get _%_string _%_list.

(** [/api?category=a&limit=1], the query of the specification's example;
    [/api?limit=abc], a limit with no numeric prefix; [/api?limit=-1], a
    negative limit; [/api?category=&limit=2], an empty category. *)
Definition category_a_limit_1 : request :=
  get "/api" [(js "category", js "a"); (js "limit", js "1")].

Definition limit_abc : request := get "/api" [(js "limit", js "abc")].

Definition limit_minus_1 : request := get "/api" [(js "limit", js "-1")].

Definition empty_category_limit_2 : request :=
  get "/api" [(js "category", js ""); (js "limit", js "2")].

(** [/?limit=abc&category=a], [/api/], [/api?category=a],
    [/api?category=b], [/api?limit=1&category=a], and a POST to
    [/api?category=b&limit=1&category=a], whose [queryParams] object is that
    of the request before it. *)
Definition home_with_query : request :=
  get "/" [(js "limit", js "abc"); (js "category", js "a")].

Definition api_slash : request := get "/api/" [].

Definition category_a : request := get "/api" [(js "category", js "a")].

Definition category_b : request := get "/api" [(js "category", js "b")].

Definition limit_1_category_a : request :=
  get "/api" [(js "limit", js "1"); (js "category", js "a")].

Definition post_repeated_category : request :=
  {| method := js "POST";
     pathname := js "/api";
     searchParams := [(js "category", js "b"); (js "limit", js "1");
                      (js "category", js "a")] |}.

(** Worlds whose file parses to an array with a [null] item, to a JSON
    string, and to an object wrapping the products. *)
Definition world_of (v : json) : world :=
  {| data_json := Normal (js "data"); JSON_parse := λ _, Normal v |}.

Definition null_item_world : world := world_of (JArr [record_of "a"; JNull]).

Definition string_world : world := world_of (JStr (js "hello")).

Definition wrapped_world : world :=
  world_of (JObj [(js "products", JArr sample_collection)]).

(** [/api], [/api?limit=1], [/api?limit=2], [/api?limit=5abc],
    [/api?limit=5] and [/api?category=a&sort=price]. *)
Definition no_parameters : request := get "/api" [].

Definition limit_1 : request := get "/api" [(js "limit", js "1")].

Definition limit_2 : request := get "/api" [(js "limit", js "2")].

Definition limit_5abc : request := get "/api" [(js "limit", js "5abc")].

Definition limit_5 : request := get "/api" [(js "limit", js "5")].

Definition category_a_sorted : request :=
  get "/api" [(js "category", js "a"); (js "sort", js "price")].

(** A disk for the pages server on which every file reads as its own path,
    and one without [contact.html]. *)
Definition echo_disk : Pages.disk :=
  {| Pages.readFileSync_utf8 := λ path, Normal path;
     Pages.readFileSync_buffer := λ path, Normal path |}.

Definition no_contact_disk : Pages.disk :=
  {| Pages.readFileSync_utf8 :=
       λ path, if decide (path = js "./contact.html")
               then Throw SystemError else Normal path;
     Pages.readFileSync_buffer := λ path, Normal path |}.

Definition echo_pages : Pages.pages :=
  {| Pages.homePage := js "./home.html";
     Pages.contactPage := js "./contact.html";
     Pages.aboutPage := js "./about.html";
     Pages.notfoundPage := js "./notfound.html" |}.

(** A machine for the script whose input file holds [hello], with every
    path writable, and one that holds an earlier output as well. *)
Definition hello_machine : Farm.machine :=
  {| Farm.files := {[ Farm.input_path := js "hello" ]};
     Farm.console := [];
     Farm.writable := λ _, true |}.

Definition rerun_machine : Farm.machine :=
  {| Farm.files := {[ Farm.input_path := js "hello";
                      Farm.output_path := js "stale";
                      js "./index.js" := js "code" ]};
     Farm.console := [js "earlier line"];
     Farm.writable := λ _, true |}.

(** * The JavaScript fragment *)

Section Runtime.

Lemma parseInt_empty : parseInt [] = None.
Proof. reflexivity. Qed.

Lemma parseInt_Some_truthy (s : jsstring) (n : Z) :
  parseInt s = Some n → ToBoolean (Some s) = true.
Proof. destruct s as [|c s]; [discriminate | reflexivity]. Qed.

Lemma slice_from_0_nan {A : Type} (l : list A) : slice_from_0 l None = [].
Proof.
  unfold slice_from_0; cbn [ToIntegerOrInfinity].
  replace (Z.to_nat _) with 0%nat; [apply take_0 | ].
  change (0 <? 0)%Z with false; cbn iota. lia.
Qed.

Lemma slice_from_0_nonneg {A : Type} (l : list A) (n : Z) :
  (0 ≤ n)%Z → slice_from_0 l (Some n) = take (Z.to_nat n) l.
Proof.
  intros Hn. unfold slice_from_0; cbn [ToIntegerOrInfinity].
  destruct (Z.ltb_spec n 0) as [Hlt|_]; [lia|].
  destruct (Z.le_ge_cases n (Z.of_nat (length l))) as [Hle|Hge].
  - f_equal. lia.
  - rewrite !take_ge by lia. reflexivity.
Qed.

Lemma slice_from_0_prefix {A : Type} (l : list A) (e : option Z) :
  slice_from_0 l e `prefix_of` l.
Proof. apply prefix_take. Qed.

Lemma slice_from_0_sublist {A : Type} (l : list A) (e : option Z) :
  slice_from_0 l e `sublist_of` l.
Proof. apply sublist_take. Qed.

Lemma prefix_is_sublist {A : Type} (l1 l2 : list A) :
  l1 `prefix_of` l2 → l1 `sublist_of` l2.
Proof. intros [k ->]. by apply sublist_inserts_r. Qed.

(** On an item that is not [null] the callback of the category filter
    returns normally, and selects the item exactly when its category field
    is the query value. *)
Lemma callback_selects (X : jsstring) (item : json) :
  item ≠ JNull →
  (c ← get_category item; Normal (strict_equals c (Some X)))
  = Normal (bool_decide (record_category item = Some X)).
Proof.
  intros Hnn. unfold get_category, record_category.
  destruct item as [ | b | x | s | items | members ]; try done.
  destruct (own_property (js "category") members) as [[ | | | t | | ]|];
    cbn; try done.
  f_equal. apply bool_decide_ext. split; congruence.
Qed.

Lemma filter_items_matching (X : jsstring) (l : list json) :
  no_null l →
  filter_items
    (λ item, c ← get_category item; Normal (strict_equals c (Some X))) l
  = Normal (matching X l).
Proof.
  unfold matching. induction 1 as [|item l Hitem _ IH]; [done|].
  cbn [filter_items]. rewrite callback_selects by done.
  cbn. rewrite IH. cbn.
  case_bool_decide; case_decide; done.
Qed.

(** Whatever the callback, what [filter] keeps is a subsequence of the
    array. *)
Lemma filter_items_sublist (cb : json → completion bool)
    (l kept : list json) :
  filter_items cb l = Normal kept → kept `sublist_of` l.
Proof.
  revert kept. induction l as [|item l IH]; intros kept; cbn.
  - by intros [= <-].
  - destruct (cb item) as [selected|e]; cbn; [|done].
    destruct (filter_items cb l) as [kept'|e]; cbn; [|done].
    intros [= <-]. specialize (IH kept' eq_refl).
    destruct selected; by constructor.
Qed.

End Runtime.

(** * The handler, route by route *)

Section Routes.

Variable w : world.

Lemma root_is_not_api : js "/api" ≠ js "/".
Proof. intros H. vm_compute in H. discriminate H. Qed.

Lemma handler_home (req : request) :
  pathname req = js "/" →
  response w req = [WriteHead 200 text_html; End (Text home_page)]
  ∧ settled w req = Normal ().
Proof.
  intros Hpath. unfold response, settled, handler. rewrite Hpath.
  destruct (decide (js "/" = js "/")) as [_|Hne]; [done | by destruct Hne].
Qed.

Lemma handler_unmatched (req : request) :
  pathname req ≠ js "/" → pathname req ≠ js "/api" →
  response w req
  = [WriteHead 404 text_html; End (Text (js "<h1>404 - Page Not Found</h1>"))]
  ∧ settled w req = Normal ().
Proof.
  intros Hhome Hapi. unfold response, settled, handler.
  destruct (decide (pathname req = js "/")) as [E|_]; [by destruct Hhome|].
  destruct (decide (pathname req = js "/api")) as [E|_]; [by destruct Hapi|].
  done.
Qed.

(** The data route answers with the value of the pipeline, or with the
    error body when any step of the [try] block throws; either way the
    handler itself completes normally, with exactly one head and one body
    written. *)
Lemma handler_api (req : request) :
  pathname req = js "/api" →
  response w req
  = match api_result w (queryParams req) with
    | Normal v => ok_response v
    | Throw _ => data_unavailable
    end
  ∧ settled w req = Normal ().
Proof.
  intros Hpath. unfold response, settled, handler. rewrite Hpath.
  destruct (decide (js "/api" = js "/")) as [E|_];
    [by destruct (root_is_not_api E)|].
  destruct (decide (js "/api" = js "/api")) as [_|Hne]; [|by destruct Hne].
  unfold api_result, try_catch, api_try, api_catch, lift, console_log,
    res_writeHead, res_end, ok_response, data_unavailable, mbind, M_bind,
    completion_bind; cbn [fst snd res console io_start app].
  destruct (data_json w) as [text|e]; [|done].
  destruct (JSON_parse w text) as [v|e]; [|done].
  destruct (category_step (queryParams req) v) as [v'|e]; [|done].
  destruct (limit_step (queryParams req) v') as [v''|e]; done.
Qed.

End Routes.

(** * Routing *)

(** C2. Routing is by exact match on the path: a request whose path is [/]
    is answered with status 200, content type [text/html] and the home
    page, whatever its query parameters, method and data file; a request
    whose path is neither [/] nor [/api] is answered with status 404. *)
Theorem routing_exact_match (w : world) (req : request) :
  (pathname req = js "/" →
     response w req = [WriteHead 200 [(js "Content-Type", js "text/html")];
                       End (Text home_page)])
  ∧ (pathname req ≠ js "/" → pathname req ≠ js "/api" →
     response w req
     = [WriteHead 404 [(js "Content-Type", js "text/html")];
        End (Text (js "<h1>404 - Page Not Found</h1>"))]).
Proof.
  split.
  - intros Hpath. by destruct (handler_home w req Hpath).
  - intros Hhome Hapi. by destruct (handler_unmatched w req Hhome Hapi).
Qed.

Lemma routing_exact_match_witness :
  response sample_world home_with_query
  = [WriteHead 200 text_html; End (Text home_page)]
  ∧ response missing_file_world api_slash
    = [WriteHead 404 text_html;
       End (Text (js "<h1>404 - Page Not Found</h1>"))].
Proof.
  split.
  - apply (proj1 (routing_exact_match sample_world home_with_query)).
    reflexivity.
  - apply (proj2 (routing_exact_match missing_file_world api_slash)).
    + intros H. vm_compute in H. discriminate H.
    + intros H. vm_compute in H. discriminate H.
Defined.

(** C7. When [data.json] cannot be read, or its text cannot be parsed, a
    request to the data route is answered with status 404 and the body
    [{error: "Data file not found"}]: these two calls are all that is made
    on the response, so nothing of a success payload precedes them, and the
    handler completes normally, the exception having been caught. *)
Theorem data_failure_is_caught (w : world) (req : request) :
  pathname req = js "/api" →
  (∃ e, data_json w = Throw e)
  ∨ (∃ text e,
       data_json w = Normal text ∧ JSON_parse w text = Throw e) →
  response w req
  = [WriteHead 404 [(js "Content-Type", js "application/json")];
     End (JSON_stringify
            (JObj [(js "error", JStr (js "Data file not found"))]))]
  ∧ settled w req = Normal ().
Proof.
  intros Hpath Hfail. destruct (handler_api w req Hpath) as [-> ->].
  split; [|done]. unfold api_result.
  destruct Hfail as [[e ->] | (text & e & -> & Hparse)]; [done|].
  cbn. by rewrite Hparse.
Qed.

Lemma data_failure_is_caught_witness :
  (response missing_file_world category_a = data_unavailable
   ∧ settled missing_file_world category_a = Normal ())
  ∧ (response corrupt_file_world limit_abc = data_unavailable
     ∧ settled corrupt_file_world limit_abc = Normal ()).
Proof.
  split.
  - apply (data_failure_is_caught missing_file_world); [reflexivity|].
    left. exists SystemError. reflexivity.
  - apply (data_failure_is_caught corrupt_file_world); [reflexivity|].
    right. exists (js "{oops"), SyntaxError. split; reflexivity.
Defined.

(** C10. The response is a function of the data file and of the path and
    query parameters of the request: two requests with the same path and
    the same [queryParams] object receive the same calls on [res] (status,
    headers and body), whatever their methods and however their query
    strings spelled the parameters. *)
Theorem response_deterministic (w : world) (r1 r2 : request) :
  pathname r1 = pathname r2 →
  queryParams r1 = queryParams r2 →
  response w r1 = response w r2.
Proof.
  intros Hpath Hquery.
  destruct (decide (pathname r1 = js "/")) as [Hhome|Hhome].
  { destruct (handler_home w r1 Hhome) as [-> _].
    rewrite Hpath in Hhome. by destruct (handler_home w r2 Hhome) as [-> _]. }
  destruct (decide (pathname r1 = js "/api")) as [Hapi|Hapi].
  { destruct (handler_api w r1 Hapi) as [-> _].
    rewrite Hpath in Hapi. destruct (handler_api w r2 Hapi) as [-> _].
    by rewrite Hquery. }
  destruct (handler_unmatched w r1 Hhome Hapi) as [-> _].
  rewrite Hpath in Hhome, Hapi.
  by destruct (handler_unmatched w r2 Hhome Hapi) as [-> _].
Qed.

Lemma response_deterministic_witness :
  response sample_world post_repeated_category
  = response sample_world limit_1_category_a.
Proof.
  apply response_deterministic.
  - reflexivity.
  - vm_compute. reflexivity.
Defined.

(** * The data route: filter, then limit *)

Section Pipeline.

Variable q : gmap jsstring jsstring.

Lemma category_step_skipped (v : json) :
  ToBoolean (q !! js "category") = false → category_step q v = Normal v.
Proof. intros H. unfold category_step. by rewrite H. Qed.

Lemma category_step_array (X : jsstring) (l : list json) :
  q !! js "category" = Some X → X ≠ [] → no_null l →
  category_step q (JArr l) = Normal (JArr (matching X l)).
Proof.
  intros HX Hne Hl. unfold category_step. rewrite HX.
  destruct X as [|c X]; [done|]. cbn [ToBoolean method_filter].
  by rewrite filter_items_matching.
Qed.

(** On a collection without [null] the filter stage always yields an array,
    a subsequence of the collection. *)
Lemma category_step_sublist (l : list json) :
  no_null l →
  ∃ fl, category_step q (JArr l) = Normal (JArr fl) ∧ fl `sublist_of` l.
Proof.
  intros Hl. destruct (q !! js "category") as [[|c X]|] eqn:HX.
  - exists l. split; [|done]. apply category_step_skipped. by rewrite HX.
  - exists (matching (c :: X) l). split; [by apply category_step_array|].
    apply sublist_filter.
  - exists l. split; [|done]. apply category_step_skipped. by rewrite HX.
Qed.

(** On any array, what the filter stage returns, when it returns, is an
    array and a subsequence of the input. *)
Lemma category_step_returns (l : list json) (v : json) :
  category_step q (JArr l) = Normal v →
  ∃ fl, v = JArr fl ∧ fl `sublist_of` l.
Proof.
  unfold category_step. destruct (ToBoolean _).
  - cbn [method_filter].
    destruct (filter_items _ l) as [kept|e] eqn:Hkept; cbn; [|done].
    intros [= <-]. exists kept. split; [done|].
    by apply filter_items_sublist in Hkept.
  - intros [= <-]. by exists l.
Qed.

(** The limit stage on an array: a slice when the parameter is truthy, the
    array itself otherwise. *)
Lemma limit_step_array (fl : list json) :
  limit_step q (JArr fl)
  = Normal (JArr (if ToBoolean (q !! js "limit")
                  then slice_from_0 fl (parseInt (ToString (q !! js "limit")))
                  else fl)).
Proof. unfold limit_step. by destruct (ToBoolean _). Qed.

Lemma limit_step_prefix (fl : list json) :
  ∃ out, limit_step q (JArr fl) = Normal (JArr out) ∧ out `prefix_of` fl.
Proof.
  rewrite limit_step_array. eexists; split; [done|].
  destruct (ToBoolean _); [apply slice_from_0_prefix | done].
Qed.

End Pipeline.

Section DataRoute.

Variables (w : world) (req : request) (text : jsstring) (l : list json).
Hypothesis Hroute : pathname req = js "/api".
Hypothesis Hread : data_json w = Normal text.
Hypothesis Hparse : JSON_parse w text = Normal (JArr l).

Lemma api_result_loaded :
  api_result w (queryParams req)
  = (fl ← category_step (queryParams req) (JArr l);
     limit_step (queryParams req) fl).
Proof. unfold api_result. rewrite Hread. cbn. by rewrite Hparse. Qed.

Lemma response_of_stages (fl : list json) (v : json) :
  category_step (queryParams req) (JArr l) = Normal (JArr fl) →
  limit_step (queryParams req) (JArr fl) = Normal v →
  response w req = ok_response v ∧ settled w req = Normal ().
Proof.
  intros Hcat Hlim. destruct (handler_api w req Hroute) as [-> ->].
  rewrite api_result_loaded, Hcat. cbn. by rewrite Hlim.
Qed.

(** C3. With a non-empty [category] parameter [X], the filter stage keeps
    exactly the records whose category field is [X] (the same code units,
    nothing trimmed), in their original order; with no [limit] parameter
    that sequence is the body of a 200 response; and when no record has
    category [X] the sequence is empty and the response is still 200. *)
Theorem category_filter_exact (X : jsstring) :
  queryParams req !! js "category" = Some X → X ≠ [] → no_null l →
  category_step (queryParams req) (JArr l) = Normal (JArr (matching X l))
  ∧ (∀ item,
       item ∈ matching X l ↔ record_category item = Some X ∧ item ∈ l)
  ∧ matching X l `sublist_of` l
  ∧ (queryParams req !! js "limit" = None →
     response w req = ok_response (JArr (matching X l)))
  ∧ ((∀ item, item ∈ l → record_category item ≠ Some X) →
     category_step (queryParams req) (JArr l) = Normal (JArr [])).
Proof.
  intros HX Hne Hl.
  pose proof (category_step_array _ X l HX Hne Hl) as Hcat.
  split; [done|].
  split; [intros item; unfold matching; by rewrite list_elem_of_filter|].
  split; [apply sublist_filter|]. split.
  - intros Hlim.
    apply (response_of_stages (matching X l)); [done|].
    rewrite limit_step_array. by rewrite Hlim.
  - intros Hnone. rewrite Hcat. do 2 f_equal.
    unfold matching. clear -Hnone.
    induction l as [|item l' IH]; [done|].
    rewrite filter_cons_False; [apply IH|apply Hnone; left].
    intros i Hi. apply Hnone. by right.
Qed.

(** C4. When the [limit] parameter parses to an integer [N ≥ 0], the
    response is the first [N] records of the filtered collection: its
    length is [min N (length filtered)], it is empty for [N = 0], and it is
    the filtered collection itself when [N] is at least its length. *)
Theorem limit_length (s : jsstring) (N : Z) (fl : list json) :
  queryParams req !! js "limit" = Some s →
  parseInt s = Some N → (0 ≤ N)%Z →
  category_step (queryParams req) (JArr l) = Normal (JArr fl) →
  ∃ out, response w req = ok_response (JArr out)
    ∧ out = take (Z.to_nat N) fl
    ∧ length out = Nat.min (Z.to_nat N) (length fl)
    ∧ (N = 0%Z → out = [])
    ∧ ((Z.of_nat (length fl) ≤ N)%Z → out = fl).
Proof.
  intros Hlim Hparse' HN Hcat. exists (take (Z.to_nat N) fl).
  split; [|split; [done|split; [apply length_take|split]]].
  - apply (response_of_stages fl); [done|].
    rewrite limit_step_array, Hlim.
    rewrite (parseInt_Some_truthy s N Hparse'). cbn [ToString].
    by rewrite Hparse', slice_from_0_nonneg.
  - intros ->. apply take_0.
  - intros Hlen. apply take_ge. lia.
Qed.

(** C5. With a non-empty [category] parameter [X] and a non-empty [limit]
    parameter [K], the category filter is applied first and the limit
    second: the response is the slice, by [parseInt K], of the records
    matching [X]; when [K] parses to [N ≥ 0] it is the first [N] of the
    records matching [X], in original order. *)
Theorem filter_then_limit (X K : jsstring) :
  queryParams req !! js "category" = Some X → X ≠ [] →
  queryParams req !! js "limit" = Some K → K ≠ [] →
  no_null l →
  response w req
  = ok_response (JArr (slice_from_0 (matching X l) (parseInt K)))
  ∧ (∀ N : Z, parseInt K = Some N → (0 ≤ N)%Z →
     response w req = ok_response (JArr (take (Z.to_nat N) (matching X l)))).
Proof.
  intros HX Hne HK HKne Hl.
  assert (response w req
          = ok_response (JArr (slice_from_0 (matching X l) (parseInt K))))
    as Hresp.
  { apply (response_of_stages (matching X l)).
    - by apply category_step_array.
    - rewrite limit_step_array, HK. by destruct K. }
  split; [done|]. intros N HN Hpos.
  by rewrite Hresp, HN, slice_from_0_nonneg.
Qed.

(** C6. Whatever the query parameters and whatever the items of the
    loaded collection, a sequence returned by the data route is a
    subsequence of that collection: records are neither reordered nor
    invented.  And for a collection of records (no item is [null]) a
    sequence is returned. *)
Theorem returned_is_subsequence :
  (∀ out, response w req = ok_response (JArr out) → out `sublist_of` l)
  ∧ (no_null l →
     ∃ out, response w req = ok_response (JArr out) ∧ out `sublist_of` l).
Proof.
  split.
  - intros out. destruct (handler_api w req Hroute) as [-> _].
    rewrite api_result_loaded.
    destruct (category_step (queryParams req) (JArr l)) as [v|e] eqn:Hcat;
      cbn; [|done].
    destruct (category_step_returns _ l v Hcat) as (fl & -> & Hsub).
    destruct (limit_step_prefix (queryParams req) fl) as (out' & -> & Hpre).
    intros [= <-]. transitivity fl; [by apply prefix_is_sublist | done].
  - intros Hl.
    destruct (category_step_sublist (queryParams req) l Hl)
      as (fl & Hcat & Hsub).
    destruct (limit_step_prefix (queryParams req) fl) as (out & Hlim & Hpre).
    exists out. split.
    + by destruct (response_of_stages fl (JArr out) Hcat Hlim).
    + transitivity fl; [by apply prefix_is_sublist | done].
Qed.

(** C9. Whatever the [limit] parameter (absent, empty, negative, without
    a numeric prefix, or a numeral), the returned sequence is a prefix of
    the filtered collection. *)
Theorem limit_takes_prefix (fl : list json) :
  category_step (queryParams req) (JArr l) = Normal (JArr fl) →
  ∃ out, response w req = ok_response (JArr out) ∧ out `prefix_of` fl.
Proof.
  intros Hcat.
  destruct (limit_step_prefix (queryParams req) fl) as (out & Hlim & Hpre).
  exists out. split; [|done].
  by destruct (response_of_stages fl (JArr out) Hcat Hlim).
Qed.

(** C1, as the code has it. A [limit] parameter that is present but does
    not parse as a number never fails the request: the response is 200.
    When the parameter is the empty string the filtered collection is
    returned unchanged; when it is not empty the returned sequence is
    empty, [slice] reading the [NaN] of [parseInt] as [0]. *)
Theorem unparseable_limit (s : jsstring) (fl : list json) :
  queryParams req !! js "limit" = Some s →
  parseInt s = None →
  category_step (queryParams req) (JArr l) = Normal (JArr fl) →
  response w req
  = ok_response (JArr (match s with [] => fl | _ :: _ => [] end))
  ∧ settled w req = Normal ().
Proof.
  intros Hlim Hnan Hcat. apply (response_of_stages fl); [done|].
  rewrite limit_step_array, Hlim. destruct s as [|c s]; [done|].
  cbn [ToBoolean ToString]. by rewrite Hnan, slice_from_0_nan.
Qed.

End DataRoute.

(** C8. When the [category] parameter is absent or the empty string no
    filtering takes place: the value handed to the limit stage is the
    loaded value itself, and the response is the one the limit stage
    determines from it. *)
Theorem no_category_no_filter (w : world) (req : request) (text : jsstring)
    (v : json) :
  pathname req = js "/api" →
  data_json w = Normal text →
  JSON_parse w text = Normal v →
  queryParams req !! js "category" = None
  ∨ queryParams req !! js "category" = Some [] →
  category_step (queryParams req) v = Normal v
  ∧ response w req
    = match limit_step (queryParams req) v with
      | Normal out => ok_response out
      | Throw _ => data_unavailable
      end.
Proof.
  intros Hroute Hread Hparse Hcat.
  assert (category_step (queryParams req) v = Normal v) as Hskip.
  { apply category_step_skipped. by destruct Hcat as [-> | ->]. }
  split; [done|]. destruct (handler_api w req Hroute) as [-> _].
  unfold api_result. rewrite Hread. cbn. rewrite Hparse. cbn.
  by rewrite Hskip.
Qed.

(** * The theorems on the sample inputs *)

Lemma sample_no_null : no_null sample_collection.
Proof. repeat constructor; discriminate. Qed.

Lemma category_filter_exact_witness :
  category_step (queryParams category_b) (JArr sample_collection)
  = Normal (JArr [record_of "b"]).
Proof.
  refine (proj1 (category_filter_exact sample_world category_b sample_text
                   sample_collection eq_refl eq_refl eq_refl (js "b")
                   _ _ _)).
  - vm_compute. reflexivity.
  - discriminate.
  - exact sample_no_null.
Defined.

Lemma limit_length_witness :
  ∃ out, response sample_world empty_category_limit_2 = ok_response (JArr out)
    ∧ out = take 2 sample_collection
    ∧ length out = Nat.min 2 3
    ∧ (2%Z = 0%Z → out = [])
    ∧ ((3 ≤ 2)%Z → out = sample_collection).
Proof.
  apply (limit_length sample_world empty_category_limit_2 sample_text
           sample_collection eq_refl eq_refl eq_refl (js "2") 2
           sample_collection).
  - vm_compute. reflexivity.
  - reflexivity.
  - discriminate.
  - reflexivity.
Defined.

(** The example of the specification: on [{category:"a"}, {category:"b"},
    {category:"a"}] the query [category=a&limit=1] returns the first
    matching record only. *)
Lemma filter_then_limit_witness :
  response sample_world category_a_limit_1
  = ok_response (JArr [record_of "a"]).
Proof.
  refine (proj2 (filter_then_limit sample_world category_a_limit_1
                   sample_text sample_collection eq_refl eq_refl eq_refl
                   (js "a") (js "1") _ _ _ _ sample_no_null) 1%Z _ _).
  - vm_compute. reflexivity.
  - discriminate.
  - vm_compute. reflexivity.
  - discriminate.
  - reflexivity.
  - discriminate.
Defined.

Lemma returned_is_subsequence_witness :
  ∃ out, response sample_world category_a_limit_1 = ok_response (JArr out)
    ∧ out `sublist_of` sample_collection.
Proof.
  apply (proj2 (returned_is_subsequence sample_world category_a_limit_1
                  sample_text sample_collection eq_refl eq_refl eq_refl)).
  exact sample_no_null.
Defined.

Lemma limit_takes_prefix_witness :
  ∃ out, response sample_world limit_minus_1 = ok_response (JArr out)
    ∧ out `prefix_of` sample_collection.
Proof.
  apply (limit_takes_prefix sample_world limit_minus_1 sample_text
           sample_collection eq_refl eq_refl eq_refl sample_collection).
  reflexivity.
Defined.

Lemma unparseable_limit_witness :
  response sample_world limit_abc = ok_response (JArr [])
  ∧ settled sample_world limit_abc = Normal ().
Proof.
  apply (unparseable_limit sample_world limit_abc sample_text
           sample_collection eq_refl eq_refl eq_refl (js "abc")
           sample_collection).
  - vm_compute. reflexivity.
  - reflexivity.
  - reflexivity.
Defined.

Lemma no_category_no_filter_witness :
  category_step (queryParams empty_category_limit_2) (JArr sample_collection)
  = Normal (JArr sample_collection)
  ∧ category_step (queryParams limit_abc) (JArr sample_collection)
    = Normal (JArr sample_collection).
Proof.
  split.
  - refine (proj1 (no_category_no_filter sample_world empty_category_limit_2
                     sample_text (JArr sample_collection) eq_refl eq_refl
                     eq_refl _)).
    right. vm_compute. reflexivity.
  - refine (proj1 (no_category_no_filter sample_world limit_abc
                     sample_text (JArr sample_collection) eq_refl eq_refl
                     eq_refl _)).
    left. vm_compute. reflexivity.
Defined.

(** The [limit] parameter [abc] is present and has no numeric prefix, the
    filtered collection is the three sample records, and the response is
    the empty sequence, not the filtered collection. *)
Lemma unparseable_limit_counterexample :
  queryParams limit_abc !! js "limit" = Some (js "abc")
  ∧ parseInt (js "abc") = None
  ∧ category_step (queryParams limit_abc) (JArr sample_collection)
    = Normal (JArr sample_collection)
  ∧ response sample_world limit_abc = ok_response (JArr [])
  ∧ response sample_world limit_abc ≠ ok_response (JArr sample_collection).
Proof.
  split; [vm_compute; reflexivity|]. split; [reflexivity|].
  split; [reflexivity|]. split; [reflexivity|].
  intros H. vm_compute in H. discriminate H.
Qed.

(** * Further properties of the handler *)

Section HandlerInvariants.

Variables (w : world) (req : request).





End HandlerInvariants.

Section FilterFailure.

Variable b : option jsstring.

Lemma no_null_or_null (l : list json) : no_null l ∨ JNull ∈ l.
Proof.
  induction l as [|item l [IH|IH]].
  - left. constructor.
  - destruct item; try (left; constructor; [discriminate | exact IH]).
    right. left.
  - right. by right.
Qed.

Lemma null_not_no_null (l : list json) : JNull ∈ l → ¬ no_null l.
Proof.
  intros Hin Hl. unfold no_null in Hl. rewrite Forall_forall in Hl.
  by apply (Hl JNull Hin).
Qed.

(** The callback of the category filter throws on [null], wherever it is in
    the array, and the exception ends the call to [filter]. *)
Lemma filter_items_null (l : list json) :
  JNull ∈ l →
  filter_items (λ item, c ← get_category item; Normal (strict_equals c b)) l
  = Throw TypeError.
Proof.
  induction l as [|item l IH]; intros Hin; [by inv Hin|].
  destruct item; cbn; try done;
    (rewrite IH; [done|]; inv Hin; done).
Qed.

End FilterFailure.

Section DataRouteEdges.

Variables (w : world) (req : request) (text : jsstring) (v : json).
Hypothesis Hroute : pathname req = js "/api".
Hypothesis Hread : data_json w = Normal text.
Hypothesis Hparse : JSON_parse w text = Normal v.

Lemma api_result_value :
  api_result w (queryParams req)
  = (v' ← category_step (queryParams req) v; limit_step (queryParams req) v').
Proof. unfold api_result. rewrite Hread. cbn. by rewrite Hparse. Qed.

Lemma response_value :
  response w req
  = match (v' ← category_step (queryParams req) v;
           limit_step (queryParams req) v') with
    | Normal out => ok_response out
    | Throw _ => data_unavailable
    end.
Proof.
  destruct (handler_api w req Hroute) as [-> _]. by rewrite api_result_value.
Qed.

(** X4. When the file is read and parsed, the data route answers 404
    exactly in two cases: a category filter is requested and the loaded
    value is not an array free of [null] items; or no category filter is
    requested, a limit is, and the loaded value is neither an array nor a
    string. *)
Theorem data_route_failure_iff :
  response w req = data_unavailable
  ↔ (ToBoolean (queryParams req !! js "category") = true
     ∧ ¬ (∃ l, v = JArr l ∧ no_null l))
    ∨ (ToBoolean (queryParams req !! js "category") = false
       ∧ ToBoolean (queryParams req !! js "limit") = true
       ∧ (∀ l, v ≠ JArr l) ∧ (∀ s, v ≠ JStr s)).
Proof.
  rewrite response_value. unfold category_step.
  destruct (ToBoolean (queryParams req !! js "category")) eqn:Hcat.
  - destruct v as [ | bb | x | s | l | members ]; cbn;
      try (split; [intros _; left; split; [done|]; by intros (l' & [=] & _)
                  | done]).
    destruct (no_null_or_null l) as [Hl|Hnull].
    + destruct (queryParams req !! js "category") as [X|] eqn:HX; [|done].
      rewrite (filter_items_matching X l Hl). cbn.
      rewrite limit_step_array. split; [done|].
      intros [[_ Hno]|[[=] _]]. destruct Hno. by exists l.
    + rewrite (filter_items_null _ l Hnull). cbn. split; [|done].
      intros _. left. split; [done|]. intros (l' & [= <-] & Hl).
      by apply (null_not_no_null l).
  - cbn. unfold limit_step.
    destruct (ToBoolean (queryParams req !! js "limit")) eqn:Hlim.
    + destruct v as [ | bb | x | s | l | members ]; cbn;
        try (split; [intros _; right; by repeat split | done]).
      * split; [done|]. intros [[[=] _]|(_ & _ & _ & Hs)]. by destruct (Hs s).
      * split; [done|]. intros [[[=] _]|(_ & _ & Hl & _)]. by destruct (Hl l).
    + split; [done|]. by intros [[[=] _]|(_ & [=] & _)].
Qed.

(** X5. A data file holding a JSON string, requested with a limit that
    parses to [N ≥ 0] and no category, is answered 200 with the first [N]
    code units of the string: [slice] is also a method of strings. *)
Theorem string_payload_is_sliced (s k : jsstring) (N : Z) :
  v = JStr s →
  ToBoolean (queryParams req !! js "category") = false →
  queryParams req !! js "limit" = Some k →
  parseInt k = Some N → (0 ≤ N)%Z →
  response w req = ok_response (JStr (take (Z.to_nat N) s)).
Proof.
  intros Hv Hcat Hlim HN Hpos. rewrite response_value, Hv.
  rewrite category_step_skipped by done. cbn. unfold limit_step.
  rewrite Hlim, (parseInt_Some_truthy k N HN). cbn [ToString method_slice].
  by rewrite HN, slice_from_0_nonneg.
Qed.

(** X11. With neither a category nor a limit (each absent or empty) the
    loaded value is sent back unchanged with status 200, whatever JSON
    value it is. *)
Theorem no_parameters_echo :
  ToBoolean (queryParams req !! js "category") = false →
  ToBoolean (queryParams req !! js "limit") = false →
  response w req = ok_response v.
Proof.
  intros Hcat Hlim. rewrite response_value.
  rewrite category_step_skipped by done. cbn. unfold limit_step.
  by rewrite Hlim.
Qed.

End DataRouteEdges.

Section SliceFacts.

Context {A : Type}.

Lemma slice_from_0_negative (l : list A) (n : Z) :
  (n < 0)%Z →
  slice_from_0 l (Some n) = take (length l - Z.to_nat (- n)) l.
Proof.
  intros Hn. unfold slice_from_0; cbn [ToIntegerOrInfinity].
  destruct (Z.ltb_spec n 0) as [_|Hge]; [|lia]. f_equal. lia.
Qed.

Lemma take_prefix_le (l : list A) (n m : nat) :
  n ≤ m → take n l `prefix_of` take m l.
Proof.
  intros Hle. replace (take n l) with (take n (take m l)).
  - apply prefix_take.
  - rewrite take_take. f_equal. lia.
Qed.

End SliceFacts.

Section StagesReadOneParameter.

Variables q1 q2 : gmap jsstring jsstring.

Lemma category_step_ext (v : json) :
  q1 !! js "category" = q2 !! js "category" →
  category_step q1 v = category_step q2 v.
Proof. intros H. unfold category_step. by rewrite H. Qed.

Lemma limit_step_ext (v : json) :
  q1 !! js "limit" = q2 !! js "limit" →
  limit_step q1 v = limit_step q2 v.
Proof. intros H. unfold limit_step. by rewrite H. Qed.

End StagesReadOneParameter.

(** X8. The response reads nothing of the request but its path and its
    [category] and [limit] parameters: two requests that agree on these
    three receive the same response, whatever their other parameters. *)
Theorem response_reads_two_parameters (w : world) (r1 r2 : request) :
  pathname r1 = pathname r2 →
  queryParams r1 !! js "category" = queryParams r2 !! js "category" →
  queryParams r1 !! js "limit" = queryParams r2 !! js "limit" →
  response w r1 = response w r2.
Proof.
  intros Hpath Hcat Hlim.
  destruct (decide (pathname r1 = js "/")) as [Hhome|Hhome].
  { destruct (handler_home w r1 Hhome) as [-> _].
    rewrite Hpath in Hhome. by destruct (handler_home w r2 Hhome) as [-> _]. }
  destruct (decide (pathname r1 = js "/api")) as [Hapi|Hapi].
  { destruct (handler_api w r1 Hapi) as [-> _].
    rewrite Hpath in Hapi. destruct (handler_api w r2 Hapi) as [-> _].
    unfold api_result.
    destruct (data_json w) as [text|e]; [cbn|done].
    destruct (JSON_parse w text) as [v|e]; [cbn|done].
    rewrite (category_step_ext _ _ v Hcat).
    destruct (category_step (queryParams r2) v) as [v'|e]; [cbn|done].
    by rewrite (limit_step_ext _ _ v' Hlim). }
  destruct (handler_unmatched w r1 Hhome Hapi) as [-> _].
  rewrite Hpath in Hhome, Hapi.
  by destruct (handler_unmatched w r2 Hhome Hapi) as [-> _].
Qed.


Section DataRouteLimits.

Variables (w : world) (text : jsstring) (l : list json).
Hypothesis Hread : data_json w = Normal text.
Hypothesis Hparse : JSON_parse w text = Normal (JArr l).

(** X6. A limit that parses to a negative integer [N] does not fail and
    does not empty the result: the last [|N|] records of the filtered
    collection are dropped (all of them when there are at most [|N|]). *)
Theorem negative_limit_drops_tail (req : request) (s : jsstring) (N : Z)
    (fl : list json) :
  pathname req = js "/api" →
  queryParams req !! js "limit" = Some s →
  parseInt s = Some N → (N < 0)%Z →
  category_step (queryParams req) (JArr l) = Normal (JArr fl) →
  response w req
  = ok_response (JArr (take (length fl - Z.to_nat (- N)) fl)).
Proof.
  intros Hroute Hlim HN Hneg Hcat.
  apply (response_of_stages w req text l Hroute Hread Hparse fl); [done|].
  rewrite limit_step_array, Hlim, (parseInt_Some_truthy s N HN).
  cbn [ToString]. by rewrite HN, slice_from_0_negative.
Qed.

(** X7. Raising a non-negative limit only extends the answer: for the same
    filtered collection, the sequence returned for limit [n1] is a prefix
    of the one returned for a limit [n2 ≥ n1]. *)
Theorem larger_limit_extends (r1 r2 : request) (s1 s2 : jsstring)
    (n1 n2 : Z) (fl : list json) :
  pathname r1 = js "/api" → pathname r2 = js "/api" →
  category_step (queryParams r1) (JArr l) = Normal (JArr fl) →
  category_step (queryParams r2) (JArr l) = Normal (JArr fl) →
  queryParams r1 !! js "limit" = Some s1 →
  queryParams r2 !! js "limit" = Some s2 →
  parseInt s1 = Some n1 → parseInt s2 = Some n2 →
  (0 ≤ n1 ≤ n2)%Z →
  ∃ out1 out2,
    response w r1 = ok_response (JArr out1)
    ∧ response w r2 = ok_response (JArr out2)
    ∧ out1 `prefix_of` out2.
Proof.
  intros Hr1 Hr2 Hc1 Hc2 Hl1 Hl2 Hn1 Hn2 Hle.
  exists (take (Z.to_nat n1) fl), (take (Z.to_nat n2) fl).
  split; [|split; [|apply take_prefix_le; lia]].
  - apply (response_of_stages w r1 text l Hr1 Hread Hparse fl); [done|].
    rewrite limit_step_array, Hl1, (parseInt_Some_truthy s1 n1 Hn1).
    cbn [ToString]. rewrite Hn1, slice_from_0_nonneg; [done|lia].
  - apply (response_of_stages w r2 text l Hr2 Hread Hparse fl); [done|].
    rewrite limit_step_array, Hl2, (parseInt_Some_truthy s2 n2 Hn2).
    cbn [ToString]. rewrite Hn2, slice_from_0_nonneg; [done|lia].
Qed.

(** X12. With a category filter, whatever the limit, every record of the
    answer is a record of the collection with that category: no record
    of another category, or without a string category, is ever returned. *)
Theorem category_answer_all_match (req : request) (X : jsstring) :
  pathname req = js "/api" →
  queryParams req !! js "category" = Some X → X ≠ [] →
  no_null l →
  ∃ out, response w req = ok_response (JArr out)
    ∧ ∀ item, item ∈ out → record_category item = Some X ∧ item ∈ l.
Proof.
  intros Hroute HX Hne Hl.
  pose proof (category_step_array _ X l HX Hne Hl) as Hcat.
  destruct (limit_step_prefix (queryParams req) (matching X l))
    as (out & Hlim & Hpre).
  exists out. split.
  - by destruct (response_of_stages w req text l Hroute Hread Hparse
                   (matching X l) (JArr out) Hcat Hlim).
  - intros item Hin. apply (elem_of_prefix _ _ _ Hin) in Hpre.
    unfold matching in Hpre. by rewrite list_elem_of_filter in Hpre.
Qed.

End DataRouteLimits.

Section NumericPrefix.

Lemma radix_digit_decimal (c : N) :
  decimal_digit c → radix_digit 10 c = Some (Z.of_N c - 48)%Z.
Proof.
  intros [Hlo Hhi]. unfold radix_digit, digit_of.
  destruct (N.leb_spec 48 c); [|lia]. destruct (N.leb_spec c 57); [|lia].
  cbn [andb]. destruct (Z.ltb_spec (Z.of_N c - 48) 10); [done|lia].
Qed.

Lemma radix_digit_not_decimal (c : N) :
  ¬ decimal_digit c → radix_digit 10 c = None.
Proof.
  intros Hnd. unfold radix_digit, digit_of, decimal_digit in *.
  destruct (N.leb_spec 48 c), (N.leb_spec c 57); cbn [andb]; try lia;
    destruct (N.leb_spec 97 c), (N.leb_spec c 122); cbn [andb];
    try (destruct (Z.ltb_spec (Z.of_N c - 87) 10); [lia|done]);
    destruct (N.leb_spec 65 c), (N.leb_spec c 90); cbn [andb]; try done;
    try (destruct (Z.ltb_spec (Z.of_N c - 55) 10); [lia|done]).
Qed.

Lemma read_digits_numeral (ds rest : jsstring) (acc : Z) :
  Forall decimal_digit ds →
  match rest with [] => True | c :: _ => ¬ decimal_digit c end →
  read_digits 10 acc (ds ++ rest) = read_digits 10 acc ds.
Proof.
  intros Hds Hrest. revert acc.
  induction Hds as [|d ds Hd _ IH]; intros acc.
  - destruct rest as [|c rest]; [done|]. cbn.
    by rewrite radix_digit_not_decimal.
  - cbn. rewrite (radix_digit_decimal d Hd). apply IH.
Qed.

(** A string that starts with a decimal digit, and not with [0x] or [0X],
    is read in radix 10 from its first code unit. *)
Lemma parseInt_digit_first (d : N) (s : jsstring) :
  decimal_digit d →
  (d = 48%N →
   match s with [] => True | c :: _ => c ≠ 120%N ∧ c ≠ 88%N end) →
  parseInt (d :: s) = digits_value 10 (d :: s).
Proof.
  intros [Hlo Hhi] Hx.
  assert (parseInt (d :: s)
          = match digits_value 10 (d :: s) with
            | Some n => Some (1 * n)%Z
            | None => None
            end) as ->.
  { assert (d = 48 ∨ d = 49 ∨ d = 50 ∨ d = 51 ∨ d = 52 ∨ d = 53 ∨ d = 54
            ∨ d = 55 ∨ d = 56 ∨ d = 57)%N as Hd by lia.
    destruct Hd as [->|Hd];
      [|by repeat (destruct Hd as [->|Hd]; [reflexivity|]); subst d].
    destruct s as [|c s]; [reflexivity|].
    destruct (Hx eq_refl) as [Hc1 Hc2]. unfold parseInt.
    cbn [trimStart]. change (StrWhiteSpaceChar 48) with false. cbn iota.
    destruct c as [|p]; [reflexivity|].
    do 7 (try destruct p as [p|p|]); try reflexivity; done. }
  destruct (digits_value 10 (d :: s)) as [n|]; [|done]. f_equal. lia.
Qed.

Lemma parseInt_numeral_prefix (ds rest : jsstring) :
  Forall decimal_digit ds → ds ≠ [] → ends_numeral ds rest →
  parseInt (ds ++ rest) = Some (read_digits 10 0 ds)
  ∧ parseInt ds = Some (read_digits 10 0 ds).
Proof.
  intros Hds Hne Hend. destruct ds as [|d ds]; [done|].
  pose proof (Forall_inv Hds) as Hd. pose proof (Forall_inv_tail Hds) as Hds'.
  assert (∀ t, digits_value 10 (d :: t) = Some (read_digits 10 0 (d :: t)))
    as Hval.
  { intros t. unfold digits_value. by rewrite (radix_digit_decimal d Hd). }
  split.
  - change ((d :: ds) ++ rest) with (d :: (ds ++ rest)).
    rewrite parseInt_digit_first, Hval; [| done |].
    + f_equal. change (d :: ds ++ rest) with ((d :: ds) ++ rest).
      apply read_digits_numeral; [done|].
      destruct rest as [|c rest]; [done|]. by destruct Hend.
    + intros ->. destruct ds as [|d' ds]; cbn.
      * destruct rest as [|c rest]; [done|]. destruct Hend as [_ Hx].
        by apply Hx.
      * pose proof (Forall_inv Hds') as [Hlo Hhi]. split; lia.
  - rewrite parseInt_digit_first, Hval; [done | done |].
    intros ->. destruct ds as [|d' ds]; [done|].
    pose proof (Forall_inv Hds') as [Hlo Hhi]. split; lia.
Qed.

(** X10. A limit made of a decimal numeral followed by other text (as in
    [5abc]) limits exactly as the numeral alone: the limit stage gives the
    same result for both. *)
Theorem limit_reads_numeric_prefix (q1 q2 : gmap jsstring jsstring)
    (ds rest : jsstring) (v : json) :
  Forall decimal_digit ds → ds ≠ [] → ends_numeral ds rest →
  q1 !! js "limit" = Some (ds ++ rest) →
  q2 !! js "limit" = Some ds →
  limit_step q1 v = limit_step q2 v.
Proof.
  intros Hds Hne Hend H1 H2.
  destruct (parseInt_numeral_prefix ds rest Hds Hne Hend) as [Hp1 Hp2].
  unfold limit_step. rewrite H1, H2. cbn [ToString]. rewrite Hp1, Hp2.
  by destruct ds.
Qed.

End NumericPrefix.

(** * The static pages server *)

Section PagesServer.

Variable p : Pages.pages.

(** X13. The pages server compares the whole of [req.url], query string
    included: a URL that contains a question mark is never one of the
    three routes and is answered 404 with the not-found page. *)
Theorem pages_query_string_unmatched (url : jsstring) :
  63%N ∈ url →
  Pages.listener p url
  = [Pages.WriteHead 404; Pages.End (Pages.Str (Pages.notfoundPage p))]
  ∧ Pages.status_sent (Pages.listener p url) = 404%Z.
Proof.
  intros Hin.
  assert (∀ lit, 63%N ∉ lit → url ≠ lit) as Hlit by (intros lit Hn ->; done).
  assert (∀ lit : jsstring, bool_decide (63%N ∈ lit) = false → 63%N ∉ lit)
    as Hdec by (intros lit Hb; by apply bool_decide_eq_false in Hb).
  unfold Pages.listener.
  destruct (decide (url = js "/about")) as [E|_];
    [by destruct (Hlit _ (Hdec (js "/about") eq_refl))|].
  destruct (decide (url = js "/contact")) as [E|_];
    [by destruct (Hlit _ (Hdec (js "/contact") eq_refl))|].
  destruct (decide (url = js "/")) as [E|_];
    [by destruct (Hlit _ (Hdec (js "/") eq_refl))|].
  done.
Qed.

End PagesServer.

(** X14. The pages server starts exactly when each of its four files can
    be read, and then serves what was read: the text of [home.html],
    [contact.html] and [notfound.html], and the bytes of [about.html].  If
    any read throws, the module throws before a server exists. *)
Theorem pages_load_iff (d : Pages.disk) (p : Pages.pages) :
  Pages.load d = Normal p
  ↔ Pages.readFileSync_utf8 d (js "./home.html") = Normal (Pages.homePage p)
    ∧ Pages.readFileSync_utf8 d (js "./contact.html")
      = Normal (Pages.contactPage p)
    ∧ Pages.readFileSync_buffer d (js "./about.html")
      = Normal (Pages.aboutPage p)
    ∧ Pages.readFileSync_utf8 d (js "./notfound.html")
      = Normal (Pages.notfoundPage p).
Proof.
  unfold Pages.load. split.
  - destruct (Pages.readFileSync_utf8 d (js "./home.html")) as [h|e];
      cbn; [|done].
    destruct (Pages.readFileSync_utf8 d (js "./contact.html")) as [c|e];
      cbn; [|done].
    destruct (Pages.readFileSync_buffer d (js "./about.html")) as [a|e];
      cbn; [|done].
    destruct (Pages.readFileSync_utf8 d (js "./notfound.html")) as [n|e];
      cbn; [|done].
    by intros [= <-].
  - intros (-> & -> & -> & ->). cbn. by destruct p.
Qed.

(** * The file-copy script *)

Section FarmScript.

Variable m : Farm.machine.

Lemma farm_paths_differ : Farm.input_path ≠ Farm.output_path.
Proof. intros H. vm_compute in H. discriminate H. Qed.

(** The three ways the script can go. *)
Lemma script_cases :
  match Farm.files m !! Farm.input_path with
  | None => Farm.script m = (Throw SystemError, m)
  | Some input =>
      if Farm.writable m Farm.output_path then
        Farm.script m
        = (Normal (),
           {| Farm.files :=
                <[Farm.output_path := Farm.preamble ++ input]> (Farm.files m);
              Farm.console := Farm.console m ++ [input];
              Farm.writable := Farm.writable m |})
      else
        Farm.script m
        = (Throw SystemError,
           {| Farm.files := Farm.files m;
              Farm.console := Farm.console m ++ [input];
              Farm.writable := Farm.writable m |})
  end.
Proof.
  unfold Farm.script, Farm.readFileSync, Farm.writeFileSync,
    Farm.console_log, mbind, Farm.Script_bind.
  destruct (Farm.files m !! Farm.input_path) as [input|]; [|done].
  cbn [Farm.files Farm.console Farm.writable].
  by destruct (Farm.writable m Farm.output_path).
Qed.

(** X15. When the input file exists and the output path is writable, the
    script succeeds; afterwards the output file holds the fixed preamble
    followed by the input text, so that dropping the preamble gives the
    input back; every other file, the input file among them, is as before;
    and the input text is the one line printed. *)
Theorem farm_copies_with_preamble (input : jsstring) :
  Farm.files m !! Farm.input_path = Some input →
  Farm.writable m Farm.output_path = true →
  (Farm.script m).1 = Normal ()
  ∧ Farm.files (Farm.script m).2 !! Farm.output_path
    = Some (Farm.preamble ++ input)
  ∧ (∀ out, Farm.files (Farm.script m).2 !! Farm.output_path = Some out →
            drop (length Farm.preamble) out = input)
  ∧ (∀ path, path ≠ Farm.output_path →
             Farm.files (Farm.script m).2 !! path = Farm.files m !! path)
  ∧ Farm.console (Farm.script m).2 = Farm.console m ++ [input].
Proof.
  intros Hin Hw. pose proof script_cases as Hs. rewrite Hin, Hw in Hs.
  rewrite Hs. cbn [fst snd Farm.files Farm.console].
  split; [done|]. split; [apply lookup_insert_eq|].
  split; [|split; [|done]].
  - intros out. rewrite lookup_insert_eq. intros Heq.
    assert (out = Farm.preamble ++ input) as -> by congruence.
    apply drop_app_length.
  - intros path Hne. by rewrite lookup_insert_ne.
Qed.


(** X17. Running the script a second time changes no file: the output of
    the first run is written again, the input file not being the output
    file. *)
Theorem farm_second_run (input : jsstring) :
  Farm.files m !! Farm.input_path = Some input →
  Farm.writable m Farm.output_path = true →
  (Farm.script (Farm.script m).2).1 = Normal ()
  ∧ Farm.files (Farm.script (Farm.script m).2).2
    = Farm.files (Farm.script m).2.
Proof.
  intros Hin Hw. pose proof script_cases as Hs. rewrite Hin, Hw in Hs.
  rewrite Hs. cbn [snd]. clear Hs.
  unfold Farm.script, Farm.readFileSync, Farm.writeFileSync,
    Farm.console_log, mbind, Farm.Script_bind.
  cbn [Farm.files Farm.console Farm.writable].
  rewrite lookup_insert_ne by (apply not_eq_sym, farm_paths_differ).
  rewrite Hin. cbn [Farm.files Farm.console Farm.writable]. rewrite Hw.
  cbn [fst snd Farm.files]. split; [done|]. apply insert_insert_eq.
Qed.

End FarmScript.

(** * The further properties on the sample inputs *)

Lemma data_route_failure_iff_witness :
  response null_item_world category_a = data_unavailable.
Proof.
  apply (proj2 (data_route_failure_iff null_item_world category_a
                  (js "data") (JArr [record_of "a"; JNull])
                  eq_refl eq_refl eq_refl)).
  left. split; [vm_compute; reflexivity|].
  intros (l & Hl & Hnn). injection Hl as <-.
  apply (null_not_no_null _ (list_elem_of_further _ _ _ (list_elem_of_here _ _))
           Hnn).
Defined.

Lemma string_payload_is_sliced_witness :
  response string_world limit_2 = ok_response (JStr (js "he")).
Proof.
  apply (string_payload_is_sliced string_world limit_2 (js "data")
           (JStr (js "hello")) eq_refl eq_refl eq_refl (js "hello") (js "2")
           2%Z).
  - reflexivity.
  - vm_compute. reflexivity.
  - vm_compute. reflexivity.
  - reflexivity.
  - discriminate.
Defined.

Lemma no_parameters_echo_witness :
  response wrapped_world no_parameters
  = ok_response (JObj [(js "products", JArr sample_collection)]).
Proof.
  apply (no_parameters_echo wrapped_world no_parameters (js "data")
           (JObj [(js "products", JArr sample_collection)])
           eq_refl eq_refl eq_refl).
  - vm_compute. reflexivity.
  - vm_compute. reflexivity.
Defined.

Lemma negative_limit_drops_tail_witness :
  response sample_world limit_minus_1
  = ok_response (JArr [record_of "a"; record_of "b"]).
Proof.
  apply (negative_limit_drops_tail sample_world sample_text sample_collection
           eq_refl eq_refl limit_minus_1 (js "-1") (-1)%Z sample_collection).
  - reflexivity.
  - vm_compute. reflexivity.
  - reflexivity.
  - reflexivity.
  - reflexivity.
Defined.

Lemma larger_limit_extends_witness :
  ∃ out1 out2,
    response sample_world limit_1 = ok_response (JArr out1)
    ∧ response sample_world limit_2 = ok_response (JArr out2)
    ∧ out1 `prefix_of` out2.
Proof.
  apply (larger_limit_extends sample_world sample_text sample_collection
           eq_refl eq_refl limit_1 limit_2 (js "1") (js "2") 1%Z 2%Z
           sample_collection).
  - reflexivity.
  - reflexivity.
  - reflexivity.
  - reflexivity.
  - vm_compute. reflexivity.
  - vm_compute. reflexivity.
  - reflexivity.
  - reflexivity.
  - split; discriminate.
Defined.

Lemma response_reads_two_parameters_witness :
  response sample_world category_a_sorted = response sample_world category_a.
Proof.
  apply response_reads_two_parameters.
  - reflexivity.
  - vm_compute. reflexivity.
  - vm_compute. reflexivity.
Defined.

Lemma limit_reads_numeric_prefix_witness :
  limit_step (queryParams limit_5abc) (JArr sample_collection)
  = limit_step (queryParams limit_5) (JArr sample_collection).
Proof.
  apply (limit_reads_numeric_prefix (queryParams limit_5abc)
           (queryParams limit_5) (js "5") (js "abc")).
  - constructor; [|constructor]. split; discriminate.
  - discriminate.
  - split; [|discriminate]. intros [_ H]. by apply H.
  - vm_compute. reflexivity.
  - vm_compute. reflexivity.
Defined.

Lemma category_answer_all_match_witness :
  ∃ out, response sample_world category_a_limit_1 = ok_response (JArr out)
    ∧ ∀ item, item ∈ out →
        record_category item = Some (js "a") ∧ item ∈ sample_collection.
Proof.
  apply (category_answer_all_match sample_world sample_text sample_collection
           eq_refl eq_refl category_a_limit_1 (js "a")).
  - reflexivity.
  - vm_compute. reflexivity.
  - discriminate.
  - exact sample_no_null.
Defined.

Lemma pages_query_string_unmatched_witness :
  Pages.listener echo_pages (js "/?page=2")
  = [Pages.WriteHead 404; Pages.End (Pages.Str (js "./notfound.html"))]
  ∧ Pages.status_sent (Pages.listener echo_pages (js "/?page=2")) = 404%Z.
Proof.
  apply (pages_query_string_unmatched echo_pages (js "/?page=2")).
  apply list_elem_of_further, list_elem_of_here.
Defined.

Lemma farm_copies_with_preamble_witness :
  (Farm.script hello_machine).1 = Normal ()
  ∧ Farm.files (Farm.script hello_machine).2 !! Farm.output_path
    = Some (Farm.preamble ++ js "hello").
Proof.
  pose proof (farm_copies_with_preamble hello_machine (js "hello")) as H.
  destruct H as (Hok & Hout & _).
  - vm_compute. reflexivity.
  - reflexivity.
  - split; [exact Hok | exact Hout].
Defined.

Lemma farm_second_run_witness :
  (Farm.script (Farm.script rerun_machine).2).1 = Normal ()
  ∧ Farm.files (Farm.script (Farm.script rerun_machine).2).2
    = Farm.files (Farm.script rerun_machine).2.
Proof.
  apply (farm_second_run rerun_machine (js "hello")).
  - vm_compute. reflexivity.
  - reflexivity.
Defined.
